(** * errorwrapper: prefixed, flattening error wrappers

    A shallow embedding of the Go package [errorwrapper] in its three
    variants (v1, the one-level variant and the recursive variant), and
    the properties of its construction, merging, rendering and unwrapping
    operations. *)

From Stdlib Require Import Strings.String Strings.Ascii Strings.Byte.
From Stdlib Require Import List Bool Arith Lia.
Import ListNotations.
Local Open Scope string_scope.

(** ** Go strings and [strings.Builder]

    A Go string is a sequence of bytes; [String.string] is the same thing
    with [ascii] for the byte type.  A [strings.Builder] is an append-only
    buffer whose zero value is empty. *)

Definition byte_to_string (b : byte) : string :=
  String (ascii_of_byte b) EmptyString.

Module Builder.
Definition t := string.
Definition zero : t := "".
Definition WriteString (sb : t) (s : string) : t := sb ++ s.
Definition WriteByte (sb : t) (b : byte) : t := sb ++ byte_to_string b.
Definition String_ (sb : t) : string := sb.
End Builder.

(** [s != ""] *)
Definition nonempty (s : string) : bool :=
  match s with
  | EmptyString => false
  | String _ _ => true
  end.

(** ** Constants *)

Definition defaultErrJoiner : byte := x2e.
Definition defaultMsgJoiner : string := ": ".

(** ** Error values

    A value of Go's interface type [error] is either nil or a dynamic
    value.  The dynamic values the package distinguishes are a
    [*errorString], a [*errWrapper], and anything else (a foreign error).
    Of a foreign error the package observes its [Error()] text and, in
    the two older variants, the outcome of [errors.As(err, &errWrapper{})]
    started at it; [foreignAs] records that outcome.  Values are immutable
    once built, so a pointer is modelled by the value it points to.

    The declarations of this part ([errorString], [errWrapper], the
    constants, [New], [Error] and [Unwrap]) are the same text in
    [src/v1/errorwrapper_v1.go], [src/unnamed/part_000] and
    [src/unnamed/part_001]; they are embedded once.  A field left out of
    a struct literal has its zero value: nil, the empty string, the byte
    [0x00]. *)

Record errWrapperOf (E : Type) : Type :=
  mkErrWrapper {
    err : option E;
    msg : string;
    prefix : string;
    errJoiner : byte
  }.

Arguments mkErrWrapper {E} _ _ _ _.
Arguments err {E} _.
Arguments msg {E} _.
Arguments prefix {E} _.
Arguments errJoiner {E} _.

#[warnings="-register-all"]
Inductive errval : Type :=
| PtrErrorString (s : string)
| PtrErrWrapper (w : errWrapperOf errval)
| Foreign (text : string) (foreignAs : bool).

Definition errWrapper : Type := errWrapperOf errval.
Definition error : Type := option errval.
Definition nil : error := None.

(** The type assertion of [err] to a pointer to [errWrapper]. *)
Definition asErrWrapper (e : error) : option errWrapper :=
  match e with
  | Some (PtrErrWrapper w) => Some w
  | _ => None
  end.

(** ** Rendering: the [Error] methods *)

Fixpoint Error (e : errval) : string :=
  match e with
  | PtrErrorString s => s
  | Foreign text _ => text
  | PtrErrWrapper ew =>
      let sb := Builder.zero in
      let isMsgFilled := nonempty (msg ew) in
      let sb :=
        if nonempty (prefix ew)
        then Builder.WriteString (Builder.WriteString sb (prefix ew)) defaultMsgJoiner
        else sb in
      let sb :=
        if isMsgFilled
        then Builder.WriteByte (Builder.WriteString (Builder.WriteByte sb x5b) (msg ew)) x5d
        else sb in
      let sb :=
        match err ew with
        | Some inner =>
            let sb := if isMsgFilled then Builder.WriteByte sb x20 else sb in
            Builder.WriteString sb (Error inner)
        | None => sb
        end in
      Builder.String_ sb
  end.

(** ** Unwrapping: the [Unwrap] method *)

Definition Unwrap (ew : errWrapper) : error := err ew.

(** ** Construction: [New]

    A variadic parameter is the list of the arguments passed for it. *)

Definition New (errJoiner_ : byte) (prefix_ : list string) : errWrapper :=
  let ew := mkErrWrapper None "" "" errJoiner_ in
  let ew :=
    if Byte.eqb (errJoiner ew) x00
    then mkErrWrapper (err ew) (msg ew) (prefix ew) defaultErrJoiner
    else ew in
  let ew :=
    match prefix_ with
    | p0 :: _ => mkErrWrapper (err ew) (msg ew) p0 (errJoiner ew)
    | [] => ew
    end in
  ew.

(** [msg[0]] when [len(msg) >= 1], the zero string otherwise. *)
Definition firstOr (msg_ : list string) : string :=
  match msg_ with
  | m0 :: _ => m0
  | [] => ""
  end.

(** ** The recursive variant ([src/unnamed/part_001]) *)

Module Part001.

Fixpoint unwrapValue (e : errval) (joiner : byte) : string * error :=
  match e with
  | PtrErrWrapper ew =>
      let '(recursivePrefix, underlyingErr) :=
        match err ew with
        | Some inner => unwrapValue inner joiner
        | None => ("", nil)
        end in
      let sb := Builder.zero in
      let sb := Builder.WriteString sb (prefix ew) in
      let sb :=
        if nonempty (prefix ew) && nonempty recursivePrefix
        then Builder.WriteByte sb joiner
        else sb in
      let sb := Builder.WriteString sb recursivePrefix in
      (Builder.String_ sb, underlyingErr)
  | _ => ("", Some e)
  end.

(** [unwrapRecursively]: the recursive call of the source is on
    [ew.err], an interface value that may be nil; [unwrapValue] is the
    function on the non-nil values and this is its extension to nil. *)
Definition unwrapRecursively (err_ : error) (joiner : byte) : string * error :=
  match err_ with
  | Some e => unwrapValue e joiner
  | None => ("", nil)
  end.

Definition NewError (ew : errWrapper) (err_ : error) (msg_ : list string) : error :=
  match err_ with
  | None => nil
  | Some _ =>
      let tmpMsg := firstOr msg_ in
      let '(unwPrefix, undErr) := unwrapRecursively err_ (errJoiner ew) in
      let sb := Builder.zero in
      let sb := Builder.WriteString sb (prefix ew) in
      let sb :=
        if nonempty (prefix ew) && nonempty unwPrefix
        then Builder.WriteByte sb (errJoiner ew)
        else sb in
      let sb := Builder.WriteString sb unwPrefix in
      Some (PtrErrWrapper
              (mkErrWrapper undErr tmpMsg (Builder.String_ sb) (errJoiner ew)))
  end.

Definition NewErrorString (ew : errWrapper) (errStr : string) (msg_ : list string) : error :=
  if nonempty errStr
  then
    let tmpMsg := firstOr msg_ in
    Some (PtrErrWrapper
            (mkErrWrapper (Some (PtrErrorString errStr)) tmpMsg (prefix ew) x00))
  else nil.

End Part001.

(** ** The two older variants

    [V1] is [src/v1/errorwrapper_v1.go], where the message is a plain
    parameter that comes first; [Part000] is [src/unnamed/part_000],
    where it is variadic and comes last.  Neither has the nil and empty
    string guards of the recursive variant.  Both test [errors.As(err, &errWrapper{})] before merging.  The target
    type is the struct type [errWrapper]; [errors.As] walks the [Unwrap]
    chain of [err] and succeeds at a value assignable to that type or
    whose own [As] method accepts the target.  A pointer to an
    [errWrapper] is not assignable to the struct type and has no [As]
    method, so the walk goes on through its [Unwrap]; an [errorString]
    pointer has neither [As] nor [Unwrap]; at a foreign value the outcome
    is the recorded [foreignAs]. *)

Fixpoint errorsAsValue (e : errval) : bool :=
  match e with
  | PtrErrorString _ => false
  | PtrErrWrapper ew =>
      match Unwrap ew with
      | Some inner => errorsAsValue inner
      | None => false
      end
  | Foreign _ foreignAs => foreignAs
  end.

Definition errorsAs (err_ : error) : bool :=
  match err_ with
  | Some e => errorsAsValue e
  | None => false
  end.

Module V1.

Definition NewError (ew : errWrapper) (msg_ : string) (err_ : error) : error :=
  let fallthrough :=
    Some (PtrErrWrapper (mkErrWrapper err_ msg_ (prefix ew) x00)) in
  if errorsAs err_
  then
    match asErrWrapper err_ with
    | Some j =>
        if nonempty (prefix j)
        then
          if nonempty (prefix ew)
          then
            let sb := Builder.zero in
            let sb := Builder.WriteString sb (prefix ew) in
            let sb := Builder.WriteByte sb (errJoiner ew) in
            let sb := Builder.WriteString sb (prefix j) in
            Some (PtrErrWrapper
                    (mkErrWrapper (err j) msg_ (Builder.String_ sb) x00))
          else
            Some (PtrErrWrapper (mkErrWrapper (err j) msg_ (prefix j) x00))
        else fallthrough
    | None => fallthrough
    end
  else fallthrough.

Definition NewErrorString (ew : errWrapper) (msg_ errString : string) : error :=
  Some (PtrErrWrapper
          (mkErrWrapper (Some (PtrErrorString errString)) msg_ (prefix ew) x00)).

End V1.

Module Part000.

Definition NewError (ew : errWrapper) (err_ : error) (msg_ : list string) : error :=
  let tmpMsg := firstOr msg_ in
  let fallthrough :=
    Some (PtrErrWrapper (mkErrWrapper err_ tmpMsg (prefix ew) x00)) in
  if errorsAs err_
  then
    match asErrWrapper err_ with
    | Some j =>
        if nonempty (prefix j)
        then
          if nonempty (prefix ew)
          then
            let sb := Builder.zero in
            let sb := Builder.WriteString sb (prefix ew) in
            let sb := Builder.WriteByte sb (errJoiner ew) in
            let sb := Builder.WriteString sb (prefix j) in
            Some (PtrErrWrapper
                    (mkErrWrapper (err j) tmpMsg (Builder.String_ sb) x00))
          else
            Some (PtrErrWrapper (mkErrWrapper (err j) tmpMsg (prefix j) x00))
        else fallthrough
    | None => fallthrough
    end
  else fallthrough.

Definition NewErrorString (ew : errWrapper) (errStr : string) (msg_ : list string) : error :=
  let tmpMsg := firstOr msg_ in
  Some (PtrErrWrapper
          (mkErrWrapper (Some (PtrErrorString errStr)) tmpMsg (prefix ew) x00)).

End Part000.

(** ** Vocabulary of the specification

    The chain of an error value is the sequence of wrappers reached by
    repeated [Unwrap]; it ends at the first value that is not a wrapper,
    or at nil. *)

Fixpoint chainPrefixesValue (e : errval) : list string :=
  match e with
  | PtrErrWrapper ew =>
      prefix ew :: match err ew with
                   | Some inner => chainPrefixesValue inner
                   | None => []
                   end
  | _ => []
  end.

(** The prefixes of the wrappers of a chain, outermost first. *)
Definition chainPrefixes (err_ : error) : list string :=
  match err_ with
  | Some e => chainPrefixesValue e
  | None => []
  end.

Fixpoint terminalValue (e : errval) : error :=
  match e with
  | PtrErrWrapper ew =>
      match err ew with
      | Some inner => terminalValue inner
      | None => nil
      end
  | _ => Some e
  end.

(** The value at the end of a chain: the first one that is not a wrapper. *)
Definition terminal (err_ : error) : error :=
  match err_ with
  | Some e => terminalValue e
  | None => nil
  end.

Fixpoint depthValue (e : errval) : nat :=
  match e with
  | PtrErrWrapper ew =>
      S match err ew with
        | Some inner => depthValue inner
        | None => 0
        end
  | _ => 0
  end.

(** The number of wrappers of a chain. *)
Definition depth (err_ : error) : nat :=
  match err_ with
  | Some e => depthValue e
  | None => 0
  end.

(** The non-empty strings of [ps] in order, separated by the joiner. *)
Definition joinPrefixes (joiner : byte) (ps : list string) : string :=
  String.concat (byte_to_string joiner) (filter nonempty ps).

Definition isErrWrapper (err_ : error) : bool :=
  match asErrWrapper err_ with
  | Some _ => true
  | None => false
  end.

Definition isErrorString (err_ : error) : bool :=
  match err_ with
  | Some (PtrErrorString _) => true
  | _ => false
  end.

Definition isNil (err_ : error) : bool :=
  match err_ with
  | None => true
  | Some _ => false
  end.

(** The display string of a result, when there is one. *)
Definition render (err_ : error) : option string := option_map Error err_.

(** The prefix field of a result, when it is a wrapper. *)
Definition prefixOf (err_ : error) : option string :=
  option_map prefix (asErrWrapper err_).

(** The joiner field of a result, when it is a wrapper. *)
Definition joinerOf (err_ : error) : option byte :=
  option_map errJoiner (asErrWrapper err_).

(** [unwrap] applied [n] times; a value that is not a wrapper has no
    [Unwrap] method, so a further step from it is not available. *)
Fixpoint unwrapTimes (n : nat) (err_ : error) : option error :=
  match n with
  | 0 => Some err_
  | S n' =>
      match asErrWrapper err_ with
      | Some ew => unwrapTimes n' (Unwrap ew)
      | None => None
      end
  end.

(** ** Induction along a chain *)

Fixpoint errval_chain_ind (P : errval -> Prop)
    (Hstr : forall s, P (PtrErrorString s))
    (Hfor : forall text foreignAs, P (Foreign text foreignAs))
    (Hend : forall m p j, P (PtrErrWrapper (mkErrWrapper None m p j)))
    (Hwrap : forall inner m p j,
        P inner -> P (PtrErrWrapper (mkErrWrapper (Some inner) m p j)))
    (e : errval) : P e :=
  match e with
  | PtrErrorString s => Hstr s
  | Foreign text foreignAs => Hfor text foreignAs
  | PtrErrWrapper (mkErrWrapper None m p j) => Hend m p j
  | PtrErrWrapper (mkErrWrapper (Some inner) m p j) =>
      Hwrap inner m p j (errval_chain_ind P Hstr Hfor Hend Hwrap inner)
  end.

(** * Properties *)

(** ** Strings and builders *)

Lemma append_nil_r (s : string) : s ++ "" = s.
Proof. induction s as [|c s IH]; simpl; [reflexivity | now rewrite IH]. Qed.

Lemma append_assoc (a b c : string) : (a ++ b) ++ c = a ++ (b ++ c).
Proof. induction a as [|x a IH]; simpl; [reflexivity | now rewrite IH]. Qed.

Lemma nonempty_append (a b : string) :
  nonempty (a ++ b) = nonempty a || nonempty b.
Proof. destruct a; reflexivity. Qed.

Lemma nonempty_false (s : string) : nonempty s = false -> s = "".
Proof. destruct s; [reflexivity | discriminate]. Qed.

Lemma nonempty_byte (b : byte) : nonempty (byte_to_string b) = true.
Proof. reflexivity. Qed.

(** What one merge step writes: [p], the joiner when both sides are
    non-empty, then [rest]. *)
Definition joinStep (joiner : byte) (p rest : string) : string :=
  p ++ (if nonempty p && nonempty rest then byte_to_string joiner else "") ++ rest.

Lemma builder_joinStep (joiner : byte) (p rest : string) :
  Builder.String_
    (Builder.WriteString
       (if nonempty p && nonempty rest
        then Builder.WriteByte (Builder.WriteString Builder.zero p) joiner
        else Builder.WriteString Builder.zero p)
       rest)
  = joinStep joiner p rest.
Proof.
  unfold Builder.String_, Builder.WriteString, Builder.WriteByte, Builder.zero, joinStep.
  destruct (nonempty p && nonempty rest); simpl.
  - now rewrite append_assoc.
  - reflexivity.
Qed.

Lemma joinStep_nil_l (joiner : byte) (rest : string) : joinStep joiner "" rest = rest.
Proof. reflexivity. Qed.

Lemma joinStep_nil_r (joiner : byte) (p : string) : joinStep joiner p "" = p.
Proof.
  unfold joinStep. rewrite andb_false_r. simpl. apply append_nil_r.
Qed.

Lemma joinStep_both (joiner : byte) (p rest : string) :
  nonempty p = true -> nonempty rest = true ->
  joinStep joiner p rest = p ++ byte_to_string joiner ++ rest.
Proof. intros Hp Hr. unfold joinStep. now rewrite Hp, Hr. Qed.

Lemma joinPrefixes_nonempty (joiner : byte) (ps : list string) :
  nonempty (joinPrefixes joiner ps) = existsb nonempty ps.
Proof.
  unfold joinPrefixes.
  induction ps as [|p ps IH]; [reflexivity|].
  simpl. destruct (nonempty p) eqn:Hp; simpl; [|exact IH].
  destruct (filter nonempty ps); [exact Hp|].
  rewrite nonempty_append, Hp. reflexivity.
Qed.

Lemma joinPrefixes_cons (joiner : byte) (p : string) (ps : list string) :
  joinPrefixes joiner (p :: ps) = joinStep joiner p (joinPrefixes joiner ps).
Proof.
  pose proof (joinPrefixes_nonempty joiner ps) as Hne.
  unfold joinPrefixes in *. simpl.
  destruct (nonempty p) eqn:Hp.
  - destruct (filter nonempty ps) as [|q qs] eqn:Hf.
    + simpl. now rewrite joinStep_nil_r.
    + assert (Hq : nonempty q = true).
      { assert (Hin : In q (filter nonempty ps)) by (rewrite Hf; now left).
        apply filter_In in Hin. tauto. }
      rewrite joinStep_both; [reflexivity | exact Hp |].
      destruct qs; simpl; [exact Hq | now rewrite nonempty_append, Hq].
  - apply nonempty_false in Hp. subst p. now rewrite joinStep_nil_l.
Qed.

(** ** The chain walk of the recursive variant *)

Lemma unwrapRecursively_wrapper (ew : errWrapper) (joiner : byte) :
  Part001.unwrapRecursively (Some (PtrErrWrapper ew)) joiner
  = (joinStep joiner (prefix ew)
       (fst (Part001.unwrapRecursively (err ew) joiner)),
     snd (Part001.unwrapRecursively (err ew) joiner)).
Proof.
  unfold Part001.unwrapRecursively. cbn [Part001.unwrapValue].
  destruct (err ew) as [inner|].
  - destruct (Part001.unwrapValue inner joiner) as [rp u]. cbn [fst snd].
    now rewrite builder_joinStep.
  - cbn [fst snd]. now rewrite builder_joinStep.
Qed.

Lemma unwrapRecursively_other (err_ : error) (joiner : byte) :
  isErrWrapper err_ = false ->
  Part001.unwrapRecursively err_ joiner = ("", err_).
Proof.
  destruct err_ as [[s|w|t b]|]; simpl; intros H; try reflexivity; discriminate.
Qed.

Lemma unwrapRecursively_flat (t : error) (m p : string) (k joiner : byte) :
  isErrWrapper t = false ->
  Part001.unwrapRecursively (Some (PtrErrWrapper (mkErrWrapper t m p k))) joiner
  = (p, t).
Proof.
  intros Ht. rewrite unwrapRecursively_wrapper. cbn [err prefix].
  rewrite (unwrapRecursively_other t joiner Ht). cbn [fst snd].
  now rewrite joinStep_nil_r.
Qed.

Lemma unwrapRecursively_chain (err_ : error) (joiner : byte) :
  Part001.unwrapRecursively err_ joiner
  = (joinPrefixes joiner (chainPrefixes err_), terminal err_).
Proof.
  destruct err_ as [e|]; [|reflexivity].
  induction e as [s|t b|m p j|inner m p j IH] using errval_chain_ind;
    try reflexivity.
  - rewrite unwrapRecursively_wrapper.
    cbn [chainPrefixes chainPrefixesValue terminal terminalValue err prefix].
    now rewrite joinPrefixes_cons.
  - rewrite unwrapRecursively_wrapper. cbn [err prefix].
    rewrite IH. cbn [fst snd].
    cbn [chainPrefixes chainPrefixesValue terminal terminalValue err prefix].
    now rewrite joinPrefixes_cons.
Qed.

Lemma terminal_not_wrapper (err_ : error) : isErrWrapper (terminal err_) = false.
Proof.
  destruct err_ as [e|]; [|reflexivity].
  induction e as [s|t b|m p j|inner m p j IH] using errval_chain_ind;
    try reflexivity.
  exact IH.
Qed.

Lemma terminal_of_terminal (err_ : error) :
  isErrWrapper err_ = false -> terminal err_ = err_.
Proof.
  destruct err_ as [[s|w|t b]|]; try reflexivity; discriminate.
Qed.

Lemma NewError_joinStep (ew : errWrapper) (e : errval) (msg_ : list string) :
  Part001.NewError ew (Some e) msg_
  = Some (PtrErrWrapper
            (mkErrWrapper
               (snd (Part001.unwrapRecursively (Some e) (errJoiner ew)))
               (firstOr msg_)
               (joinStep (errJoiner ew) (prefix ew)
                  (fst (Part001.unwrapRecursively (Some e) (errJoiner ew))))
               (errJoiner ew))).
Proof.
  unfold Part001.NewError.
  destruct (Part001.unwrapRecursively (Some e) (errJoiner ew)) as [unwPrefix undErr].
  cbn [fst snd]. now rewrite builder_joinStep.
Qed.

(** ** Merging *)

(** C1.  In the recursive variant, wrapping a non-nil error yields one
    wrapper.  Its prefix is the factory's prefix followed by the prefixes
    of the wrappers of the chain, outermost first, the non-empty ones
    separated by the factory's joiner; its inner error is the terminal of
    the chain, which is not a wrapper; its message is the message of this
    call.  When the wrapped error is a single wrapper with prefix [p2]
    over a terminal, the prefix is [p1 + j + p2], [p1], [p2] or empty,
    according to which of [p1] and [p2] are non-empty. *)
Theorem NewError_flattens_chain
    (ew : errWrapper) (e : errval) (msg_ : list string) :
  Part001.NewError ew (Some e) msg_
  = Some (PtrErrWrapper
            (mkErrWrapper
               (terminal (Some e))
               (firstOr msg_)
               (joinPrefixes (errJoiner ew) (prefix ew :: chainPrefixes (Some e)))
               (errJoiner ew)))
  /\ isErrWrapper (terminal (Some e)) = false
  /\ (forall (t : error) (m p2 : string) (j2 : byte) (m2 : string),
         isErrWrapper t = false ->
         Part001.NewError ew (Some (PtrErrWrapper (mkErrWrapper t m p2 j2))) [m2]
         = Some (PtrErrWrapper
                   (mkErrWrapper t m2
                      (match nonempty (prefix ew), nonempty p2 with
                       | true, true =>
                           prefix ew ++ byte_to_string (errJoiner ew) ++ p2
                       | true, false => prefix ew
                       | false, true => p2
                       | false, false => ""
                       end)
                      (errJoiner ew)))).
Proof.
  split; [|split].
  - rewrite NewError_joinStep, unwrapRecursively_chain. cbn [fst snd].
    now rewrite joinPrefixes_cons.
  - apply terminal_not_wrapper.
  - intros t m p2 j2 m2 Ht.
    rewrite NewError_joinStep, unwrapRecursively_wrapper. cbn [fst snd err prefix].
    rewrite (unwrapRecursively_other t _ Ht). cbn [fst snd firstOr].
    rewrite joinStep_nil_r.
    destruct (nonempty (prefix ew)) eqn:H1, (nonempty p2) eqn:H2.
    + now rewrite joinStep_both.
    + apply nonempty_false in H2. subst p2. now rewrite joinStep_nil_r.
    + apply nonempty_false in H1. now rewrite H1, joinStep_nil_l.
    + apply nonempty_false in H1. apply nonempty_false in H2.
      now rewrite H1, H2.
Qed.

Lemma NewError_flattens_chain_witness :
  Part001.NewError (New x2e ["api"])
    (Some (PtrErrWrapper
             (mkErrWrapper (Some (Foreign "EOF" false)) "io" "svc" x2f)))
    ["retry"]
  = Some (PtrErrWrapper
            (mkErrWrapper (Some (Foreign "EOF" false)) "retry" "api.svc" x2e)).
Proof.
  exact (proj2 (proj2 (NewError_flattens_chain
                         (New x2e ["api"]) (PtrErrorString "x") []))
           (Some (Foreign "EOF" false)) "io" "svc" x2f "retry" eq_refl).
Defined.

(** ** Rendering *)

(** The display string as the specification words it: the prefix and the
    separator when the prefix is non-empty, the bracketed message when
    the message is non-empty, and the inner error's own display string,
    after one space when a message was written, when there is an inner
    error. *)
Definition renderSpec (ew : errWrapper) : string :=
  (if nonempty (prefix ew) then prefix ew ++ ": " else "")
  ++ (if nonempty (msg ew) then "[" ++ msg ew ++ "]" else "")
  ++ match err ew with
     | Some inner => (if nonempty (msg ew) then " " else "") ++ Error inner
     | None => ""
     end.

Lemma Error_wrapper_sections (ew : errWrapper) :
  Error (PtrErrWrapper ew) = renderSpec ew.
Proof.
  unfold renderSpec. cbn [Error].
  unfold Builder.String_, Builder.WriteString, Builder.WriteByte, Builder.zero,
    defaultMsgJoiner.
  destruct (nonempty (prefix ew)), (nonempty (msg ew)), (err ew) as [inner|];
    cbn [append byte_to_string ascii_of_byte];
    repeat rewrite append_assoc; repeat rewrite append_nil_r; reflexivity.
Qed.

(** C2.  The display string of a wrapper is its prefix followed by
    [": "] when the prefix is non-empty, then the message in brackets
    when the message is non-empty, then, when there is an inner error,
    a space if a message was written and the inner error's display
    string; absent sections write nothing.  For the factory made with
    joiner ['.'] and prefix ["svc"], wrapping the string ["disk full"]
    with message ["io"] displays as ["svc: [io] disk full"]. *)
Theorem Error_renders_sections (ew : errWrapper) :
  Error (PtrErrWrapper ew) = renderSpec ew
  /\ render (Part001.NewErrorString (New x2e ["svc"]) "disk full" ["io"])
     = Some "svc: [io] disk full".
Proof. split; [apply Error_wrapper_sections | reflexivity]. Qed.

(** C3, as the code has it.  Wrapping the result of
    [create('.', "svc").wrapString("disk full", "io")] with the factory
    [create('.', "api")] and message ["retry"] gives one wrapper over the
    raw error ["disk full"]: the wrapping factory's prefix comes first,
    so it displays as ["api.svc: [retry] disk full"]; the inner ["io"]
    message is dropped. *)
Theorem scenario_rewrap_render :
  let f := New x2e ["svc"] in
  let e1 := Part001.NewErrorString f "disk full" ["io"] in
  let g := New x2e ["api"] in
  let e2 := Part001.NewError g e1 ["retry"] in
  e2 = Some (PtrErrWrapper
               (mkErrWrapper (Some (PtrErrorString "disk full"))
                  "retry" "api.svc" x2e))
  /\ render e2 = Some "api.svc: [retry] disk full".
Proof. split; reflexivity. Qed.

(** The display string of the scenario of C3 is not the one that puts the
    inner prefix first. *)
Lemma scenario_rewrap_render_not_inner_first :
  render (Part001.NewError (New x2e ["api"])
            (Part001.NewErrorString (New x2e ["svc"]) "disk full" ["io"])
            ["retry"])
  <> Some "svc.api: [retry] disk full".
Proof. vm_compute. discriminate. Qed.

(** ** Absent inputs *)

(** C4.  Wrapping nil gives nil, and wrapping the empty string gives nil,
    for every factory and whatever message is passed. *)
Theorem wrapping_nothing_is_nil (ew : errWrapper) (msg_ : list string) :
  Part001.NewError ew nil msg_ = nil
  /\ Part001.NewErrorString ew "" msg_ = nil.
Proof. split; reflexivity. Qed.

(** ** Which joiner a merge uses *)



(** The same chain with every wrapper's joiner field replaced. *)
Fixpoint mapJoiners (f : byte -> byte) (e : errval) : errval :=
  match e with
  | PtrErrWrapper ew =>
      PtrErrWrapper
        (mkErrWrapper
           match err ew with
           | Some inner => Some (mapJoiners f inner)
           | None => None
           end
           (msg ew) (prefix ew) (f (errJoiner ew)))
  | _ => e
  end.

Lemma unwrapRecursively_mapJoiners (f : byte -> byte) (e : errval) (joiner : byte) :
  Part001.unwrapRecursively (Some (mapJoiners f e)) joiner
  = Part001.unwrapRecursively (Some e) joiner.
Proof.
  induction e as [s|t b|m p j|inner m p j IH] using errval_chain_ind;
    try reflexivity.
  cbn [mapJoiners err msg prefix errJoiner].
  rewrite !unwrapRecursively_wrapper. cbn [err prefix].
  now rewrite IH.
Qed.

(** Flattening reads no joiner field of the chain it walks: the prefix
    of the result is the factory's prefix and the chain's prefixes, the
    non-empty ones separated by the factory's joiner, and replacing the
    joiner fields of the wrappers in the chain changes nothing. *)
Lemma flattening_ignores_joiner_fields
    (ew : errWrapper) (e : errval) (msg_ : list string) (f : byte -> byte) :
  prefixOf (Part001.NewError ew (Some e) msg_)
  = Some (joinPrefixes (errJoiner ew) (prefix ew :: chainPrefixes (Some e)))
  /\ Part001.NewError ew (Some (mapJoiners f e)) msg_
     = Part001.NewError ew (Some e) msg_.
Proof.
  split.
  - rewrite NewError_joinStep, unwrapRecursively_chain. cbn [fst snd].
    unfold prefixOf. cbn [asErrWrapper option_map prefix].
    now rewrite joinPrefixes_cons.
  - now rewrite !NewError_joinStep, unwrapRecursively_mapJoiners.
Qed.

(** ** Factories and the joiner field *)

Lemma New_default_joiner (prefix_ : list string) :
  errJoiner (New x00 prefix_) = x2e.
Proof. destruct prefix_; reflexivity. Qed.

Lemma New_joiner_not_zero (errJoiner_ : byte) (prefix_ : list string) :
  errJoiner (New errJoiner_ prefix_) <> x00.
Proof.
  unfold New. cbn [errJoiner err msg prefix].
  destruct (Byte.eqb errJoiner_ x00) eqn:E; destruct prefix_; cbn [errJoiner];
    try discriminate; intros ->; discriminate.
Qed.

Lemma New_prefix_omitted (errJoiner_ : byte) :
  prefix (New errJoiner_ []) = "".
Proof. unfold New. now destruct (Byte.eqb _ _). Qed.

Lemma NewError_carries_joiner (ew : errWrapper) (e : errval) (msg_ : list string) :
  joinerOf (Part001.NewError ew (Some e) msg_) = Some (errJoiner ew).
Proof. now rewrite NewError_joinStep. Qed.

(** C6.  [New] replaces the zero joiner by ['.'] and takes the empty
    prefix when none is passed, and [NewError] gives its result the
    factory's joiner; [NewErrorString] does not: the wrapper it returns
    for the factory made with joiner ['.'] and prefix ["svc"] has the
    zero byte in its joiner field, and that wrapper, used as the receiver
    of [NewError], joins prefixes with the zero byte. *)
Theorem NewErrorString_leaves_joiner_zero :
  let f := New x2e ["svc"] in
  let viaError := Part001.NewError f (Some (PtrErrorString "disk full")) ["io"] in
  let viaString := Part001.NewErrorString f "disk full" ["io"] in
  New x00 [] = mkErrWrapper nil "" "" x2e
  /\ joinerOf viaError = Some (errJoiner f)
  /\ joinerOf viaString = Some x00
  /\ joinerOf viaString <> Some (errJoiner f)
  /\ option_map
       (fun w => prefixOf (Part001.NewError w
                             (Part001.NewErrorString (New x2e ["api"]) "x" []) []))
       (asErrWrapper viaString)
     = Some (Some ("svc" ++ byte_to_string x00 ++ "api")).
Proof. repeat split. discriminate. Qed.

(** ** Unwrapping *)

Lemma unwrapTimes_depth (k : nat) :
  forall (err_ t : error),
    unwrapTimes k err_ = Some t -> depth t + k = depth err_.
Proof.
  induction k as [|k IH]; intros err_ t H.
  - injection H as <-. now rewrite Nat.add_0_r.
  - destruct err_ as [[s|w|x b]|]; try discriminate.
    cbn [unwrapTimes asErrWrapper] in H.
    apply IH in H. unfold Unwrap in H.
    cbn [depth depthValue]. fold (depth (err w)). lia.
Qed.

Lemma unwrapTimes_terminal (err_ : error) :
  unwrapTimes (depth err_) err_ = Some (terminal err_).
Proof.
  destruct err_ as [e|]; [|reflexivity].
  induction e as [s|t b|m p j|inner m p j IH] using errval_chain_ind;
    try reflexivity.
  exact IH.
Qed.

Lemma unwrapTimes_before (k : nat) :
  forall err_ : error,
    k < depth err_ ->
    exists t, unwrapTimes k err_ = Some t /\ isErrWrapper t = true.
Proof.
  induction k as [|k IH]; intros err_ H.
  - exists err_. split; [reflexivity|].
    destruct err_ as [[s|w|x b]|]; cbn in H; try lia. reflexivity.
  - destruct err_ as [[s|w|x b]|]; cbn in H; try lia.
    cbn [unwrapTimes asErrWrapper]. apply IH.
    unfold Unwrap. fold (depth (err w)) in H. lia.
Qed.

Lemma unwrapTimes_beyond (k : nat) (err_ : error) :
  depth err_ < k -> unwrapTimes k err_ = None.
Proof.
  intros H. destruct (unwrapTimes k err_) as [t|] eqn:E; [|reflexivity].
  apply unwrapTimes_depth in E. lia.
Qed.

(** C7, as the code has it.  [Unwrap] returns the wrapper's inner error.
    Applied repeatedly from any error value it reaches, after as many
    steps as the chain has wrappers and not before, the terminal of the
    chain; the terminal is not a wrapper (it is a raw error, a foreign
    error or nil) and no further step is available from it; and no value
    is reached again from itself. *)
Theorem Unwrap_walks_chain (ew : errWrapper) (err_ : error) :
  Unwrap ew = err ew
  /\ unwrapTimes (depth err_) err_ = Some (terminal err_)
  /\ isErrWrapper (terminal err_) = false
  /\ (forall k, k < depth err_ ->
        exists t, unwrapTimes k err_ = Some t /\ isErrWrapper t = true)
  /\ (forall k, depth err_ < k -> unwrapTimes k err_ = None)
  /\ (forall k, unwrapTimes (S k) err_ <> Some err_).
Proof.
  repeat apply conj.
  - reflexivity.
  - apply unwrapTimes_terminal.
  - apply terminal_not_wrapper.
  - intros k. apply unwrapTimes_before.
  - intros k. apply unwrapTimes_beyond.
  - intros k H. apply unwrapTimes_depth in H. lia.
Qed.

Lemma Unwrap_walks_chain_witness :
  exists t,
    unwrapTimes 0 (Part001.NewErrorString (New x2e ["svc"]) "disk full" ["io"])
    = Some t
    /\ isErrWrapper t = true.
Proof.
  apply (proj1 (proj2 (proj2 (proj2
           (Unwrap_walks_chain (New x2e ["svc"])
              (Part001.NewErrorString (New x2e ["svc"]) "disk full" ["io"])))))).
  simpl. lia.
Defined.

(** A wrapper over a foreign error: the walk ends at the foreign error,
    which is neither a raw error nor nil. *)
Lemma Unwrap_reaches_foreign :
  let e := Part001.NewError (New x2e ["svc"]) (Some (Foreign "EOF" false)) [] in
  unwrapTimes (depth e) e = Some (Some (Foreign "EOF" false))
  /\ ~ (exists n t, unwrapTimes n e = Some t
                    /\ (isErrorString t || isNil t) = true).
Proof.
  split; [reflexivity|].
  intros [n [t [H Ht]]].
  destruct n as [|[|n]]; cbn in H; try discriminate;
    injection H as <-; discriminate.
Qed.

(** ** Empty prefixes *)

(** C8.  A factory with an empty prefix leaves the flattened prefix of
    the error it wraps as it is; for the factory made with joiner ['.']
    and an empty prefix and the result of
    [create('.', "svc").wrapString("disk full", "io")] the prefix stays
    ["svc"].  A wrapper with an empty prefix inside a chain does not stop
    the walk: the chain flattens as if that wrapper were not there, as
    for the chain of prefixes [""], [""], ["db"] over a raw error, which
    a factory with prefix ["svc"] flattens to ["svc.db"] over that raw
    error. *)
Theorem empty_prefix_is_transparent
    (fe : error) (fm : string) (fj : byte) (e : errval) (msg_ : list string)
    (inner : error) (m : string) (k joiner : byte) :
  prefixOf (Part001.NewError (mkErrWrapper fe fm "" fj) (Some e) msg_)
  = Some (joinPrefixes fj (chainPrefixes (Some e)))
  /\ prefixOf (Part001.NewError (New x2e [""])
                 (Part001.NewErrorString (New x2e ["svc"]) "disk full" ["io"]) [])
     = Some "svc"
  /\ prefixOf (Part001.NewError (New x2e [])
                 (Part001.NewErrorString (New x2e ["svc"]) "disk full" ["io"]) [])
     = Some "svc"
  /\ Part001.unwrapRecursively
       (Some (PtrErrWrapper (mkErrWrapper inner m "" k))) joiner
     = Part001.unwrapRecursively inner joiner
  /\ Part001.NewError (New x2e ["svc"])
       (Some (PtrErrWrapper
                (mkErrWrapper
                   (Some (PtrErrWrapper
                            (mkErrWrapper
                               (Some (PtrErrWrapper
                                        (mkErrWrapper
                                           (Some (PtrErrorString "x"))
                                           "" "db" x2e)))
                               "" "" x2e)))
                   "" "" x2e)))
       []
     = Some (PtrErrWrapper
               (mkErrWrapper (Some (PtrErrorString "x")) "" "svc.db" x2e)).
Proof.
  repeat apply conj; try reflexivity.
  - rewrite NewError_joinStep, unwrapRecursively_chain.
    cbn [prefix errJoiner fst]. now rewrite joinStep_nil_l.
  - rewrite unwrapRecursively_wrapper. cbn [err prefix].
    rewrite joinStep_nil_l. now destruct (Part001.unwrapRecursively inner joiner).
Qed.

(** ** Values the recursive variant produces *)

(** The non-nil error values of the package's own type that a caller of
    the recursive variant can hold, with whether their chain started at a
    factory: a factory returned by [New], which is itself an error value;
    a result of [NewErrorString]; a result of [NewError] on a value that
    is not a wrapper (a foreign error); a result of [NewError] on any of
    these. *)
Inductive producible : bool -> errval -> Prop :=
| producible_factory (errJoiner_ : byte) (prefix_ : list string) :
    producible true (PtrErrWrapper (New errJoiner_ prefix_))
| producible_string (ew : errWrapper) (errStr : string) (msg_ : list string) (r : errval) :
    Part001.NewErrorString ew errStr msg_ = Some r -> producible false r
| producible_wrap (ew : errWrapper) (a : errval) (msg_ : list string) (r : errval) :
    isErrWrapper (Some a) = false ->
    Part001.NewError ew (Some a) msg_ = Some r -> producible false r
| producible_rewrap (fromFactory : bool) (ew : errWrapper) (a : errval)
    (msg_ : list string) (r : errval) :
    producible fromFactory a ->
    Part001.NewError ew (Some a) msg_ = Some r -> producible fromFactory r.

(** A wrapper directly above a terminal that is not nil. *)
Definition flat (e : errval) : Prop :=
  exists w, e = PtrErrWrapper w
            /\ isNil (err w) = false
            /\ isErrWrapper (err w) = false.

(** A wrapper whose inner error is not a wrapper, and is nil or not as
    [innerNil] says. *)
Definition oneWrapper (innerNil : bool) (e : errval) : Prop :=
  exists w, e = PtrErrWrapper w
            /\ isErrWrapper (err w) = false
            /\ isNil (err w) = innerNil.

Lemma New_err_nil (errJoiner_ : byte) (prefix_ : list string) :
  err (New errJoiner_ prefix_) = nil.
Proof.
  unfold New. cbn [errJoiner err msg prefix].
  destruct (Byte.eqb errJoiner_ x00), prefix_; reflexivity.
Qed.

Lemma NewError_inner (ew : errWrapper) (a : errval) (msg_ : list string) (r : errval) :
  Part001.NewError ew (Some a) msg_ = Some r ->
  exists w, r = PtrErrWrapper w /\ err w = terminal (Some a).
Proof.
  intros H.
  rewrite NewError_joinStep, unwrapRecursively_chain in H. cbn [fst snd] in H.
  injection H as <-. eexists. split; reflexivity.
Qed.

Lemma oneWrapper_terminal (w : errWrapper) :
  isErrWrapper (err w) = false ->
  terminal (Some (PtrErrWrapper w)) = err w.
Proof.
  intros Hw. cbn [terminal terminalValue].
  destruct (err w) as [[s|w'|t b]|]; try reflexivity; discriminate.
Qed.

Lemma producible_oneWrapper (fromFactory : bool) (e : errval) :
  producible fromFactory e -> oneWrapper fromFactory e.
Proof.
  intros H.
  induction H as [j ps|ew errStr msg_ r H|ew a msg_ r Ha H|b ew a msg_ r Ha IH H].
  - eexists. split; [reflexivity|]. now rewrite New_err_nil.
  - unfold Part001.NewErrorString in H.
    destruct (nonempty errStr); [|discriminate].
    injection H as <-. eexists. repeat split.
  - destruct (NewError_inner ew a msg_ r H) as [w [-> Hw]].
    exists w. split; [reflexivity|]. rewrite Hw.
    destruct a as [s|w'|t b]; try discriminate; split; reflexivity.
  - destruct IH as [wa [-> [Hwa Hnil]]].
    destruct (NewError_inner ew _ msg_ r H) as [w [-> Hw]].
    exists w. split; [reflexivity|].
    rewrite Hw, (oneWrapper_terminal wa Hwa). now split.
Qed.

Lemma oneWrapper_depth (innerNil : bool) (e : errval) :
  oneWrapper innerNil e -> depth (Some e) = 1.
Proof.
  intros [w [-> [Hw _]]]. cbn [depth depthValue].
  destruct (err w) as [[s|w'|t b]|]; try reflexivity; discriminate.
Qed.

(** C9, as the code has it.  Every error value of the package's own type
    that the recursive variant can produce is a wrapper whose inner error
    is not a wrapper: its chain has exactly one wrapper.  The inner error
    is not nil, except for a factory returned by [New] and the results of
    wrapping one: their inner error is nil. *)
Theorem producible_one_wrapper (fromFactory : bool) (e : errval) :
  producible fromFactory e ->
  (exists w, e = PtrErrWrapper w
             /\ isErrWrapper (err w) = false
             /\ isNil (err w) = fromFactory)
  /\ depth (Some e) = 1.
Proof.
  intros H. apply producible_oneWrapper in H.
  split; [exact H | exact (oneWrapper_depth fromFactory e H)].
Qed.

Lemma producible_one_wrapper_witness :
  (exists w,
      PtrErrWrapper
        (mkErrWrapper (Some (PtrErrorString "disk full")) "retry" "api.svc" x2e)
      = PtrErrWrapper w
      /\ isErrWrapper (err w) = false
      /\ isNil (err w) = false)
  /\ depth (Some (PtrErrWrapper
                    (mkErrWrapper (Some (PtrErrorString "disk full"))
                       "retry" "api.svc" x2e))) = 1.
Proof.
  apply producible_one_wrapper.
  apply (producible_rewrap false (New x2e ["api"])
           (PtrErrWrapper
              (mkErrWrapper (Some (PtrErrorString "disk full")) "io" "svc" x00))
           ["retry"]).
  - apply (producible_string (New x2e ["svc"]) "disk full" ["io"]). reflexivity.
  - reflexivity.
Defined.

(** A factory passed as the error to wrap: the result is a wrapper whose
    inner error is nil. *)
Lemma factory_as_error_not_flat :
  let r := PtrErrWrapper (mkErrWrapper nil "" "api.svc" x2e) in
  Part001.NewError (New x2e ["api"]) (Some (PtrErrWrapper (New x2e ["svc"]))) []
  = Some r
  /\ producible true r
  /\ ~ flat r.
Proof.
  repeat apply conj.
  - reflexivity.
  - apply (producible_rewrap true (New x2e ["api"])
             (PtrErrWrapper (New x2e ["svc"])) []).
    + apply producible_factory.
    + reflexivity.
  - intros [w [Hw [Hnil _]]]. injection Hw as <-. discriminate.
Qed.

(** ** Which joiner joins which prefixes *)

(** [NewError] of the recursive variant applied with each factory and
    message of the list in turn, the last one first, so that the head of
    the list is the outermost wrap. *)
Fixpoint rewrap (fs : list (errWrapper * list string)) (err_ : error) : error :=
  match fs with
  | [] => err_
  | (g, m) :: rest => Part001.NewError g (rewrap rest err_) m
  end.





(** ** The three variants on errors that are not wrappers *)

(** C10.  For a non-nil error that is not a wrapper, a message and one
    factory, the wrap operation of each of the three variants returns an
    error, and the three display strings are the same. *)
Theorem variants_agree_on_plain_errors
    (ew : errWrapper) (a : errval) (m : string) :
  isErrWrapper (Some a) = false ->
  render (V1.NewError ew m (Some a)) = render (Part000.NewError ew (Some a) [m])
  /\ render (Part000.NewError ew (Some a) [m])
     = render (Part001.NewError ew (Some a) [m])
  /\ render (Part001.NewError ew (Some a) [m])
     = Some (renderSpec (mkErrWrapper (Some a) m (prefix ew) (errJoiner ew))).
Proof.
  intros Ha.
  assert (H1 : V1.NewError ew m (Some a)
               = Some (PtrErrWrapper (mkErrWrapper (Some a) m (prefix ew) x00))).
  { unfold V1.NewError. destruct (errorsAs (Some a)); [|reflexivity].
    destruct a as [s|w|t b]; try reflexivity; discriminate. }
  assert (H2 : Part000.NewError ew (Some a) [m]
               = Some (PtrErrWrapper (mkErrWrapper (Some a) m (prefix ew) x00))).
  { unfold Part000.NewError. destruct (errorsAs (Some a)); [|reflexivity].
    destruct a as [s|w|t b]; try reflexivity; discriminate. }
  assert (H3 : Part001.NewError ew (Some a) [m]
               = Some (PtrErrWrapper
                         (mkErrWrapper (Some a) m (prefix ew) (errJoiner ew)))).
  { rewrite NewError_joinStep, (unwrapRecursively_other _ _ Ha).
    cbn [fst snd firstOr]. now rewrite joinStep_nil_r. }
  rewrite H1, H2, H3. repeat split.
  unfold render, option_map.
  f_equal. apply (Error_wrapper_sections).
Qed.

Lemma variants_agree_on_plain_errors_witness :
  render (V1.NewError (New x2e ["svc"]) "io" (Some (Foreign "EOF" true)))
  = render (Part000.NewError (New x2e ["svc"]) (Some (Foreign "EOF" true)) ["io"])
  /\ render (Part000.NewError (New x2e ["svc"]) (Some (Foreign "EOF" true)) ["io"])
     = render (Part001.NewError (New x2e ["svc"]) (Some (Foreign "EOF" true)) ["io"])
  /\ render (Part001.NewError (New x2e ["svc"]) (Some (Foreign "EOF" true)) ["io"])
     = Some "svc: [io] EOF".
Proof.
  apply (variants_agree_on_plain_errors (New x2e ["svc"]) (Foreign "EOF" true) "io").
  reflexivity.
Defined.


(** * Further properties of the three variants *)

(** ** What [errors.As] answers on the package's own values *)

(** No foreign error anywhere in the chain: the value is built from
    [errorString] and [errWrapper] pointers alone. *)
Fixpoint packageBuilt (e : errval) : bool :=
  match e with
  | PtrErrorString _ => true
  | PtrErrWrapper ew =>
      match err ew with
      | Some inner => packageBuilt inner
      | None => true
      end
  | Foreign _ _ => false
  end.

Lemma errorsAs_terminal (err_ : error) :
  errorsAs err_ = errorsAs (terminal err_).
Proof.
  destruct err_ as [e|]; [|reflexivity].
  induction e as [s|t b|m p j|inner m p j IH] using errval_chain_ind;
    try reflexivity.
  exact IH.
Qed.

Lemma errorsAs_packageBuilt (e : errval) :
  packageBuilt e = true -> errorsAs (Some e) = false.
Proof.
  induction e as [s|t b|m p j|inner m p j IH] using errval_chain_ind;
    try reflexivity; try discriminate.
  exact IH.
Qed.

(** ** The older variants: nesting and merging *)

(** What the last [return] of the older [NewError] builds: a wrapper
    around [err_] as it is. *)
Definition nested (ew : errWrapper) (m : string) (err_ : error) : error :=
  Some (PtrErrWrapper (mkErrWrapper err_ m (prefix ew) x00)).

(** X1.  On an error built from the package's own values alone the two
    older variants never merge, whatever its prefix: [errors.As] with the
    struct type as target finds nothing, so the result wraps the error
    as it is, one level deeper, and [Unwrap] gives the error back. *)
Theorem older_variants_nest_package_errors
    (ew : errWrapper) (e : errval) (m : string) :
  packageBuilt e = true ->
  V1.NewError ew m (Some e) = nested ew m (Some e)
  /\ Part000.NewError ew (Some e) [m] = nested ew m (Some e)
  /\ option_map Unwrap (asErrWrapper (V1.NewError ew m (Some e))) = Some (Some e)
  /\ depth (V1.NewError ew m (Some e)) = S (depth (Some e)).
Proof.
  intros Hp. apply errorsAs_packageBuilt in Hp.
  assert (H1 : V1.NewError ew m (Some e) = nested ew m (Some e)).
  { unfold V1.NewError. now rewrite Hp. }
  assert (H2 : Part000.NewError ew (Some e) [m] = nested ew m (Some e)).
  { unfold Part000.NewError. now rewrite Hp. }
  rewrite H1, H2. repeat split.
Qed.

Lemma older_variants_nest_package_errors_witness :
  let e1 := PtrErrWrapper
              (mkErrWrapper (Some (PtrErrorString "disk full")) "io" "svc" x00) in
  V1.NewError (New x2e ["api"]) "retry" (Some e1)
  = nested (New x2e ["api"]) "retry" (Some e1)
  /\ Part000.NewError (New x2e ["api"]) (Some e1) ["retry"]
     = nested (New x2e ["api"]) "retry" (Some e1)
  /\ option_map Unwrap
       (asErrWrapper (V1.NewError (New x2e ["api"]) "retry" (Some e1)))
     = Some (Some e1)
  /\ depth (V1.NewError (New x2e ["api"]) "retry" (Some e1)) = S (depth (Some e1)).
Proof.
  apply (older_variants_nest_package_errors (New x2e ["api"])
           (PtrErrWrapper
              (mkErrWrapper (Some (PtrErrorString "disk full")) "io" "svc" x00))
           "retry").
  reflexivity.
Defined.

(** X2.  The v1 variant and the one-level variant are the same functions
    up to how the message is passed: v1 with message [m] is the
    one-level variant with [m] as the first variadic argument, and v1
    with the empty message is the one-level variant with no message. *)
Theorem v1_is_part000
    (ew : errWrapper) (err_ : error) (s m : string) (rest : list string) :
  V1.NewError ew m err_ = Part000.NewError ew err_ (m :: rest)
  /\ V1.NewError ew "" err_ = Part000.NewError ew err_ []
  /\ V1.NewErrorString ew m s = Part000.NewErrorString ew s (m :: rest)
  /\ V1.NewErrorString ew "" s = Part000.NewErrorString ew s [].
Proof. repeat split. Qed.

(** X3.  The older variants have no nil and no empty-string guard: they
    return a wrapper for every input, with the message of the call and a
    zero joiner field.  Wrapping nil gives a wrapper without an inner
    error, which displays as its prefix and message alone; wrapping the
    empty string gives a wrapper over an empty raw error. *)
Theorem older_variants_always_wrap
    (ew : errWrapper) (err_ : error) (s m : string) :
  (exists w, V1.NewError ew m err_ = Some (PtrErrWrapper w)
             /\ msg w = m /\ errJoiner w = x00)
  /\ (exists w, Part000.NewError ew err_ [m] = Some (PtrErrWrapper w)
                /\ msg w = m /\ errJoiner w = x00)
  /\ V1.NewError ew m nil = nested ew m nil
  /\ render (V1.NewError ew m nil)
     = Some ((if nonempty (prefix ew) then prefix ew ++ ": " else "")
             ++ (if nonempty m then "[" ++ m ++ "]" else ""))
  /\ V1.NewErrorString ew m "" = nested ew m (Some (PtrErrorString ""))
  /\ Part000.NewErrorString ew "" [m] = nested ew m (Some (PtrErrorString "")).
Proof.
  assert (H : exists w, V1.NewError ew m err_ = Some (PtrErrWrapper w)
                        /\ msg w = m /\ errJoiner w = x00).
  { unfold V1.NewError.
    destruct (errorsAs err_); [|eexists; repeat split].
    destruct (asErrWrapper err_) as [j|]; [|eexists; repeat split].
    destruct (nonempty (prefix j)); [|eexists; repeat split].
    destruct (nonempty (prefix ew)); eexists; repeat split. }
  repeat apply conj; try reflexivity; try exact H.
  unfold nested, V1.NewError, render, option_map. cbn [errorsAs nil].
  f_equal. rewrite Error_wrapper_sections. unfold renderSpec. cbn [err msg prefix].
  now rewrite append_nil_r.
Qed.

(** ** How wraps of the recursive variant compose *)

Lemma joinStep_nonempty (joiner : byte) (a b : string) :
  nonempty (joinStep joiner a b) = nonempty a || nonempty b.
Proof.
  unfold joinStep. rewrite !nonempty_append.
  destruct (nonempty a), (nonempty b); reflexivity.
Qed.

Lemma joinStep_assoc (joiner : byte) (a b c : string) :
  joinStep joiner a (joinStep joiner b c)
  = joinStep joiner (joinStep joiner a b) c.
Proof.
  destruct (nonempty a) eqn:Ha;
    [|apply nonempty_false in Ha; subst a; now rewrite !joinStep_nil_l].
  destruct (nonempty c) eqn:Hc;
    [|apply nonempty_false in Hc; subst c; now rewrite !joinStep_nil_r].
  destruct (nonempty b) eqn:Hb;
    [|apply nonempty_false in Hb; subst b;
      now rewrite joinStep_nil_l, joinStep_nil_r].
  rewrite (joinStep_both joiner b c Hb Hc).
  rewrite (joinStep_both joiner a b Ha Hb).
  rewrite !joinStep_both;
    try (rewrite !nonempty_append, ?Ha, ?Hb; reflexivity);
    try assumption.
  now rewrite !append_assoc.
Qed.

Lemma NewError_result (ew : errWrapper) (e : errval) (msg_ : list string) :
  Part001.NewError ew (Some e) msg_
  = Some (PtrErrWrapper
            (mkErrWrapper
               (terminal (Some e))
               (firstOr msg_)
               (joinStep (errJoiner ew) (prefix ew)
                  (joinPrefixes (errJoiner ew) (chainPrefixes (Some e))))
               (errJoiner ew))).
Proof. now rewrite NewError_joinStep, unwrapRecursively_chain. Qed.

(** The factory [g] with the prefix of [f] joined to its own. *)
Definition joinedFactory (g f : errWrapper) : errWrapper :=
  mkErrWrapper (err g) (msg g)
    (joinStep (errJoiner g) (prefix g) (prefix f)) (errJoiner g).

(** X4.  In the recursive variant, wrapping with [f] and then with [g],
    two factories with the same joiner, is wrapping once with the factory
    whose prefix is [g]'s prefix joined to [f]'s; the message of the
    first wrap has no effect. *)
Theorem wrap_twice_is_wrap_once
    (f g : errWrapper) (e : errval) (m1 m2 : list string) :
  errJoiner f = errJoiner g ->
  Part001.NewError g (Part001.NewError f (Some e) m1) m2
  = Part001.NewError (joinedFactory g f) (Some e) m2.
Proof.
  intros Hj.
  rewrite (NewError_result f e m1).
  rewrite NewError_joinStep.
  rewrite (unwrapRecursively_flat _ _ _ _ _ (terminal_not_wrapper (Some e))).
  cbn [fst snd].
  rewrite (NewError_result (joinedFactory g f) e m2).
  unfold joinedFactory. cbn [prefix errJoiner].
  now rewrite Hj, joinStep_assoc.
Qed.

Lemma wrap_twice_is_wrap_once_witness :
  Part001.NewError (New x2e ["api"])
    (Part001.NewError (New x2e ["svc"])
       (Some (PtrErrWrapper
                (mkErrWrapper (Some (Foreign "EOF" false)) "read" "db" x2e)))
       ["io"])
    ["retry"]
  = Part001.NewError (joinedFactory (New x2e ["api"]) (New x2e ["svc"]))
      (Some (PtrErrWrapper
               (mkErrWrapper (Some (Foreign "EOF" false)) "read" "db" x2e)))
      ["retry"].
Proof.
  apply (wrap_twice_is_wrap_once (New x2e ["svc"]) (New x2e ["api"])).
  reflexivity.
Defined.

(** X5.  In the recursive variant, wrapping a non-empty string with [f]
    and wrapping the result with [g] displays exactly as wrapping the
    string once with the factory whose prefix is [g]'s prefix joined to
    [f]'s, whatever the joiners of [f] and [g] and whatever the message
    of the first wrap. *)
Theorem wrap_string_then_error
    (f g : errWrapper) (errStr : string) (m1 m2 : list string) :
  nonempty errStr = true ->
  Part001.NewError g (Part001.NewErrorString f errStr m1) m2
  = Some (PtrErrWrapper
            (mkErrWrapper (Some (PtrErrorString errStr)) (firstOr m2)
               (joinStep (errJoiner g) (prefix g) (prefix f)) (errJoiner g)))
  /\ render (Part001.NewError g (Part001.NewErrorString f errStr m1) m2)
     = render (Part001.NewErrorString (joinedFactory g f) errStr m2).
Proof.
  intros Hs.
  assert (H : Part001.NewError g (Part001.NewErrorString f errStr m1) m2
              = Some (PtrErrWrapper
                        (mkErrWrapper (Some (PtrErrorString errStr)) (firstOr m2)
                           (joinStep (errJoiner g) (prefix g) (prefix f))
                           (errJoiner g)))).
  { unfold Part001.NewErrorString. rewrite Hs.
    rewrite NewError_joinStep.
    now rewrite (unwrapRecursively_flat (Some (PtrErrorString errStr))). }
  split; [exact H|].
  rewrite H. unfold Part001.NewErrorString. rewrite Hs.
  unfold render, option_map.
  now rewrite !Error_wrapper_sections.
Qed.

Lemma wrap_string_then_error_witness :
  Part001.NewError (New x2e ["api"])
    (Part001.NewErrorString (New x2f ["svc"]) "disk full" ["io"]) ["retry"]
  = Some (PtrErrWrapper
            (mkErrWrapper (Some (PtrErrorString "disk full")) "retry"
               "api.svc" x2e))
  /\ render (Part001.NewError (New x2e ["api"])
               (Part001.NewErrorString (New x2f ["svc"]) "disk full" ["io"])
               ["retry"])
     = render (Part001.NewErrorString
                 (joinedFactory (New x2e ["api"]) (New x2f ["svc"]))
                 "disk full" ["retry"]).
Proof.
  apply (wrap_string_then_error (New x2f ["svc"]) (New x2e ["api"])
           "disk full" ["io"] ["retry"]).
  reflexivity.
Defined.

(** ** The display string and the chain *)

Lemma Error_terminal_suffix (e : errval) :
  forall t, terminal (Some e) = Some t -> exists pre, Error e = pre ++ Error t.
Proof.
  induction e as [s|x b|m p j|inner m p j IH] using errval_chain_ind;
    intros t Ht.
  - injection Ht as <-. now exists "".
  - injection Ht as <-. now exists "".
  - discriminate.
  - destruct (IH t Ht) as [pre Hpre].
    rewrite Error_wrapper_sections. unfold renderSpec. cbn [err msg prefix].
    rewrite Hpre.
    eexists. rewrite <- !append_assoc. reflexivity.
Qed.

(** X6.  The display string of an error value whose chain ends at a
    non-nil terminal ends with the terminal's display string, however
    many wrappers are above it; so it is non-empty when the terminal's
    is. *)
Theorem Error_ends_with_terminal (e t : errval) :
  terminal (Some e) = Some t ->
  (exists pre, Error e = pre ++ Error t)
  /\ (nonempty (Error t) = true -> nonempty (Error e) = true).
Proof.
  intros Ht. destruct (Error_terminal_suffix e t Ht) as [pre Hpre].
  split; [now exists pre|].
  intros Hne. rewrite Hpre, nonempty_append, Hne. apply orb_true_r.
Qed.

Lemma Error_ends_with_terminal_witness :
  (exists pre,
      Error (PtrErrWrapper
               (mkErrWrapper
                  (Some (PtrErrWrapper
                           (mkErrWrapper (Some (PtrErrorString "disk full"))
                              "io" "svc" x00)))
                  "retry" "api" x00))
      = pre ++ Error (PtrErrorString "disk full"))
  /\ (nonempty (Error (PtrErrorString "disk full")) = true ->
      nonempty
        (Error (PtrErrWrapper
                  (mkErrWrapper
                     (Some (PtrErrWrapper
                              (mkErrWrapper (Some (PtrErrorString "disk full"))
                                 "io" "svc" x00)))
                     "retry" "api" x00))) = true).
Proof.
  apply Error_ends_with_terminal. reflexivity.
Defined.

(** X7.  The display string does not depend on any joiner field: a chain
    and the same chain with every wrapper's joiner replaced display the
    same. *)
Theorem Error_ignores_joiners (f : byte -> byte) (e : errval) :
  Error (mapJoiners f e) = Error e.
Proof.
  induction e as [s|x b|m p j|inner m p j IH] using errval_chain_ind;
    try reflexivity.
  cbn [mapJoiners err msg prefix errJoiner].
  rewrite !Error_wrapper_sections. unfold renderSpec. cbn [err msg prefix].
  now rewrite IH.
Qed.

(** ** When the older variants merge *)

Lemma older_NewError_merge (ew j : errWrapper) (m : string) :
  errorsAs (Some (PtrErrWrapper j)) = true ->
  nonempty (prefix j) = true ->
  V1.NewError ew m (Some (PtrErrWrapper j))
  = Some (PtrErrWrapper
            (mkErrWrapper (err j) m
               (joinStep (errJoiner ew) (prefix ew) (prefix j)) x00)).
Proof.
  intros Has Hp. unfold V1.NewError. rewrite Has. cbn [asErrWrapper]. rewrite Hp.
  destruct (nonempty (prefix ew)) eqn:He.
  - rewrite (joinStep_both _ _ _ He Hp).
    unfold Builder.String_, Builder.WriteString, Builder.WriteByte, Builder.zero.
    cbn [append]. now rewrite append_assoc.
  - apply nonempty_false in He. now rewrite He, joinStep_nil_l.
Qed.

(** X8.  The older variants merge only a wrapper whose prefix is not
    empty and on which [errors.As] succeeds.  The merge then takes one
    level: the result has the factory's prefix joined to the wrapper's by
    the same rule as in the recursive variant, and the wrapper's inner
    error as it is, so the chain is as deep as before.  A wrapper with an
    empty prefix is never merged: it is wrapped as it is. *)
Theorem older_variants_merge_one_level
    (ew j : errWrapper) (m : string) :
  errorsAs (Some (PtrErrWrapper j)) = true ->
  nonempty (prefix j) = true ->
  V1.NewError ew m (Some (PtrErrWrapper j))
  = Some (PtrErrWrapper
            (mkErrWrapper (err j) m
               (joinStep (errJoiner ew) (prefix ew) (prefix j)) x00))
  /\ Part000.NewError ew (Some (PtrErrWrapper j)) [m]
     = V1.NewError ew m (Some (PtrErrWrapper j))
  /\ depth (V1.NewError ew m (Some (PtrErrWrapper j)))
     = depth (Some (PtrErrWrapper j))
  /\ (forall (inner : error) (m0 : string) (k : byte),
         V1.NewError ew m (Some (PtrErrWrapper (mkErrWrapper inner m0 "" k)))
         = nested ew m (Some (PtrErrWrapper (mkErrWrapper inner m0 "" k)))).
Proof.
  intros Has Hp. rewrite (older_NewError_merge ew j m Has Hp).
  repeat apply conj; try reflexivity.
  - unfold Part000.NewError. cbn [firstOr].
    change (V1.NewError ew m (Some (PtrErrWrapper j))
            = Some (PtrErrWrapper
                      (mkErrWrapper (err j) m
                         (joinStep (errJoiner ew) (prefix ew) (prefix j)) x00))).
    exact (older_NewError_merge ew j m Has Hp).
  - intros inner m0 k. unfold V1.NewError, nested.
    now destruct (errorsAs (Some (PtrErrWrapper (mkErrWrapper inner m0 "" k)))).
Qed.

Lemma older_variants_merge_one_level_witness :
  let j := mkErrWrapper
             (Some (PtrErrWrapper
                      (mkErrWrapper (Some (Foreign "EOF" true)) "read" "db" x00)))
             "io" "svc" x00 in
  V1.NewError (New x2e ["api"]) "retry" (Some (PtrErrWrapper j))
  = Some (PtrErrWrapper
            (mkErrWrapper
               (Some (PtrErrWrapper
                        (mkErrWrapper (Some (Foreign "EOF" true)) "read" "db" x00)))
               "retry" "api.svc" x00)).
Proof.
  exact (proj1 (older_variants_merge_one_level (New x2e ["api"])
                  (mkErrWrapper
                     (Some (PtrErrWrapper
                              (mkErrWrapper (Some (Foreign "EOF" true))
                                 "read" "db" x00)))
                     "io" "svc" x00)
                  "retry" eq_refl eq_refl)).
Defined.

(** X9.  Where the older variants do merge a wrapper that lies directly
    over its terminal, they display the result exactly as the recursive
    variant does. *)
Theorem older_merge_displays_as_recursive
    (ew : errWrapper) (text m0 p2 : string) (k : byte) (m : string) :
  nonempty p2 = true ->
  let wrapped :=
    Some (PtrErrWrapper (mkErrWrapper (Some (Foreign text true)) m0 p2 k)) in
  render (V1.NewError ew m wrapped) = render (Part001.NewError ew wrapped [m])
  /\ render (Part000.NewError ew wrapped [m])
     = render (Part001.NewError ew wrapped [m]).
Proof.
  intros Hp wrapped.
  assert (H : render (V1.NewError ew m wrapped)
              = render (Part001.NewError ew wrapped [m])).
  { unfold wrapped.
    rewrite (older_NewError_merge ew
               (mkErrWrapper (Some (Foreign text true)) m0 p2 k) m eq_refl Hp).
    rewrite NewError_joinStep.
    rewrite (unwrapRecursively_flat (Some (Foreign text true)) m0 p2 k _ eq_refl).
    cbn [fst snd firstOr err prefix].
    unfold render, option_map.
    now rewrite !Error_wrapper_sections. }
  split; exact H.
Qed.

Lemma older_merge_displays_as_recursive_witness :
  render (V1.NewError (New x2e ["api"]) "retry"
            (Some (PtrErrWrapper
                     (mkErrWrapper (Some (Foreign "EOF" true)) "io" "svc" x00))))
  = Some "api.svc: [retry] EOF"
  /\ render (Part001.NewError (New x2e ["api"])
               (Some (PtrErrWrapper
                        (mkErrWrapper (Some (Foreign "EOF" true)) "io" "svc" x00)))
               ["retry"])
     = Some "api.svc: [retry] EOF".
Proof.
  pose proof (older_merge_displays_as_recursive (New x2e ["api"])
                "EOF" "io" "svc" x00 "retry" eq_refl) as H.
  split; [|reflexivity].
  exact (eq_trans (proj1 H) eq_refl).
Defined.

(** ** Factories made by [New] *)

(** X10.  A factory made by [New] has the first prefix argument as its
    prefix (the empty string when there is none; further arguments are
    ignored), no inner error, no message, and a joiner that is the
    argument, or ['.'] in place of the zero byte; so its joiner is never
    the zero byte, and neither is the joiner of any wrapper its
    [NewError] returns in the recursive variant. *)
Theorem New_factory_joiner_never_zero
    (errJoiner_ : byte) (prefix_ : list string) (e : errval) (msg_ : list string) :
  New errJoiner_ prefix_
  = mkErrWrapper nil "" (firstOr prefix_)
      (if Byte.eqb errJoiner_ x00 then x2e else errJoiner_)
  /\ errJoiner (New errJoiner_ prefix_) <> x00
  /\ joinerOf (Part001.NewError (New errJoiner_ prefix_) (Some e) msg_)
     = Some (if Byte.eqb errJoiner_ x00 then x2e else errJoiner_)
  /\ joinerOf (Part001.NewError (New errJoiner_ prefix_) (Some e) msg_)
     <> Some x00.
Proof.
  assert (HN : New errJoiner_ prefix_
               = mkErrWrapper nil "" (firstOr prefix_)
                   (if Byte.eqb errJoiner_ x00 then x2e else errJoiner_)).
  { unfold New. cbn [errJoiner err msg prefix].
    destruct (Byte.eqb errJoiner_ x00), prefix_; reflexivity. }
  assert (Hz : (if Byte.eqb errJoiner_ x00 then x2e else errJoiner_) <> x00).
  { destruct (Byte.eqb errJoiner_ x00) eqn:E; [discriminate|].
    intros ->. discriminate. }
  rewrite NewError_carries_joiner, HN. cbn [errJoiner].
  repeat apply conj; try reflexivity; try exact Hz.
  intros H. injection H as H. now apply Hz.
Qed.

(** ** The prefix and the root of a result *)

(** X11.  In the recursive variant the prefix of a result is empty
    exactly when the factory's prefix and every prefix in the wrapped
    chain are empty. *)
Theorem flattened_prefix_empty_iff_all_empty
    (ew : errWrapper) (e : errval) (msg_ : list string) :
  option_map nonempty (prefixOf (Part001.NewError ew (Some e) msg_))
  = Some (existsb nonempty (prefix ew :: chainPrefixes (Some e))).
Proof.
  rewrite NewError_result.
  unfold prefixOf. cbn [asErrWrapper option_map prefix].
  rewrite joinStep_nonempty, joinPrefixes_nonempty. reflexivity.
Qed.

Lemma older_NewError_terminal (ew : errWrapper) (m : string) (err_ : error) :
  terminal (V1.NewError ew m err_) = terminal err_.
Proof.
  unfold V1.NewError.
  destruct (errorsAs err_); [|reflexivity].
  destruct err_ as [[s|w|t b]|]; try reflexivity.
  cbn [asErrWrapper].
  destruct (nonempty (prefix w)); [|reflexivity].
  destruct (nonempty (prefix ew)); reflexivity.
Qed.

(** X12.  Wrapping never changes the root of an error: in each of the
    three variants the chain of the result of [NewError] ends at the same
    terminal as the chain of the wrapped error, whether the variant
    nests, merges one level, or flattens. *)
Theorem NewError_keeps_terminal
    (ew : errWrapper) (err_ : error) (m : string) :
  terminal (V1.NewError ew m err_) = terminal err_
  /\ terminal (Part000.NewError ew err_ [m]) = terminal err_
  /\ terminal (Part001.NewError ew err_ [m]) = terminal err_.
Proof.
  repeat apply conj.
  - apply older_NewError_terminal.
  - exact (older_NewError_terminal ew m err_).
  - destruct err_ as [e|]; [|reflexivity].
    rewrite NewError_result.
    cbn [terminal terminalValue err].
    fold (terminal (Some e)).
    change (terminal (terminal (Some e)) = terminal (Some e)).
    apply terminal_of_terminal, terminal_not_wrapper.
Qed.

(** ** Wrapping several times *)

(** [NewError] of the v1 variant applied with each factory and message
    of the list in turn, the last one first. *)
Fixpoint rewrapV1 (fs : list (errWrapper * string)) (err_ : error) : error :=
  match fs with
  | [] => err_
  | (g, m) :: rest => V1.NewError g m (rewrapV1 rest err_)
  end.

Lemma rewrap_keeps_inner (fs : list (errWrapper * list string)) (w : errWrapper) :
  isErrWrapper (err w) = false ->
  exists w', rewrap fs (Some (PtrErrWrapper w)) = Some (PtrErrWrapper w')
             /\ err w' = err w.
Proof.
  intros Hw. induction fs as [|[g m] rest IH].
  - now exists w.
  - destruct IH as [w1 [H1 E1]]. cbn [rewrap]. rewrite H1.
    rewrite NewError_joinStep. destruct w1 as [t1 m1 p1 k1]. cbn [err] in E1.
    rewrite unwrapRecursively_flat by (now rewrite E1).
    cbn [fst snd]. eexists. split; [reflexivity|]. exact E1.
Qed.

(** X13.  In the recursive variant, an error made from a non-empty
    string and then wrapped any number of times, by any factories with
    any messages, is still one wrapper whose [Unwrap] is the raw error
    with that string. *)
Theorem rewrapped_string_unwraps_to_raw
    (f : errWrapper) (errStr : string) (msg_ : list string)
    (fs : list (errWrapper * list string)) :
  nonempty errStr = true ->
  exists w,
    rewrap fs (Part001.NewErrorString f errStr msg_) = Some (PtrErrWrapper w)
    /\ Unwrap w = Some (PtrErrorString errStr)
    /\ option_map Error (Unwrap w) = Some errStr.
Proof.
  intros Hs. unfold Part001.NewErrorString. rewrite Hs.
  destruct (rewrap_keeps_inner fs
              (mkErrWrapper (Some (PtrErrorString errStr)) (firstOr msg_)
                 (prefix f) x00) eq_refl) as [w [H E]].
  exists w. unfold Unwrap. rewrite E. repeat split. exact H.
Qed.

Lemma rewrapped_string_unwraps_to_raw_witness :
  exists w,
    rewrap [(New x2e ["web"], ["again"]); (New x2f ["api"], ["retry"])]
      (Part001.NewErrorString (New x2e ["svc"]) "disk full" ["io"])
    = Some (PtrErrWrapper w)
    /\ Unwrap w = Some (PtrErrorString "disk full")
    /\ option_map Error (Unwrap w) = Some "disk full".
Proof.
  apply (rewrapped_string_unwraps_to_raw (New x2e ["svc"]) "disk full" ["io"]
           [(New x2e ["web"], ["again"]); (New x2f ["api"], ["retry"])]).
  reflexivity.
Defined.

Lemma rewrapV1_packageBuilt (fs : list (errWrapper * string)) (e : errval) :
  packageBuilt e = true ->
  exists e', rewrapV1 fs (Some e) = Some e'
             /\ packageBuilt e' = true
             /\ unwrapTimes (length fs) (Some e') = Some (Some e).
Proof.
  intros He. induction fs as [|[g m] rest IH].
  - exists e. repeat split. exact He.
  - destruct IH as [e1 [H1 [P1 U1]]]. cbn [rewrapV1]. rewrite H1.
    unfold V1.NewError. rewrite (errorsAs_packageBuilt e1 P1).
    eexists. split; [reflexivity|]. split; [exact P1|].
    cbn [length unwrapTimes asErrWrapper Unwrap err]. exact U1.
Qed.

(** X14.  In the v1 variant, wrapping an error built from the package's
    own values [n] times adds [n] wrappers, and [n] applications of
    [Unwrap] give the wrapped error back. *)
Theorem v1_wrap_unwrap_round_trip
    (fs : list (errWrapper * string)) (e : errval) :
  packageBuilt e = true ->
  unwrapTimes (length fs) (rewrapV1 fs (Some e)) = Some (Some e)
  /\ depth (rewrapV1 fs (Some e)) = length fs + depth (Some e).
Proof.
  intros He.
  destruct (rewrapV1_packageBuilt fs e He) as [e' [H [_ U]]].
  rewrite H. split; [exact U|].
  apply unwrapTimes_depth in U. lia.
Qed.

Lemma v1_wrap_unwrap_round_trip_witness :
  let e1 := PtrErrWrapper
              (mkErrWrapper (Some (PtrErrorString "disk full")) "io" "svc" x00) in
  let fs := [(New x2e ["web"], "again"); (New x2e ["api"], "retry")] in
  unwrapTimes (length fs) (rewrapV1 fs (Some e1)) = Some (Some e1)
  /\ depth (rewrapV1 fs (Some e1)) = length fs + depth (Some e1).
Proof.
  apply (v1_wrap_unwrap_round_trip
           [(New x2e ["web"], "again"); (New x2e ["api"], "retry")]
           (PtrErrWrapper
              (mkErrWrapper (Some (PtrErrorString "disk full")) "io" "svc" x00))).
  reflexivity.
Defined.
